(** * Call-stack capture of package [failure] (callstack.go)

    A shallow embedding of [callstack.go]: the [frame] struct and its
    accessors, the two capture functions [Callers] and
    [CallStackFromPkgErrors], and the two [Format] methods.

    Conventions.
    - Go's [int] is a 64-bit two's complement integer, embedded in [Z];
      where the source adds ([skip+2]) the wrap-around is written out.
    - A Go slice is either [nil] or a (possibly empty) sequence; the type
      [CallStack] keeps the two apart.  Its elements are values of the
      interface [Frame]: nil, a [frame] of this package, or a value of
      another type with the five methods.
    - A run-time panic (index or slice bound out of range, a method called
      on a nil interface value) is the [Panic] result of the [result]
      monad; where text written before a panic can still be seen, the
      state is kept beside the panic.
    - The Go runtime and the standard library are not part of the
      repository.  The pure string functions ([path.Base], [strings.Split],
      [strings.Join]) are written out from their documented behaviour, and
      [runtime.Callers] and [runtime.CallersFrames] from what the runtime
      does: a skip that is not positive skips nothing, and the frames of
      the calls enclosing an inlined one are inserted where the list of
      program counters lacks them.  The call stack of the running
      goroutine and the symbol table are parameters of the development. *)

From Equations Require Import Equations.
From Stdlib Require Import ZArith Lia Ascii String DecimalString.
From stdpp Require Import base list strings.

Local Open Scope Z_scope.

(** ** Results and panics *)

Inductive result (A : Type) : Type :=
| Ok (a : A)
| Panic (msg : string).
Arguments Ok {A} a.
Arguments Panic {A} msg.

(** Sequencing: a panic aborts what follows.  With these instances the
    notation [x ← e; k] of stdpp reads as sequential composition. *)
#[export] Instance result_ret : MRet result := fun _ a => Ok a.

#[export] Instance result_bind : MBind result := fun _ _ k r =>
  match r with
  | Ok a => k a
  | Panic m => Panic m
  end.

Definition succeeds {A} (r : result A) : Prop := exists a, r = Ok a.

(** ** Go integers *)

Definition int_bits : Z := 64.
Definition max_int : Z := 2 ^ (int_bits - 1) - 1.
Definition min_int : Z := - 2 ^ (int_bits - 1).

(** Two's complement wrap-around of a mathematical integer into [int]. *)
Definition wrap_int (z : Z) : Z :=
  (z - min_int) mod 2 ^ int_bits + min_int.

Definition int_add (a b : Z) : Z := wrap_int (a + b).

Definition uintptr : Type := N.

(** [len] of a Go slice or string, as an [int]. *)
Definition len {A} (l : list A) : Z := Z.of_nat (length l).

(** [a[i]]: panics when the index is out of range. *)
Definition index {A} (a : list A) (i : Z) : result A :=
  if (i <? 0) || (len a <=? i) then Panic "index out of range"
  else match a !! Z.to_nat i with
       | Some x => Ok x
       | None => Panic "index out of range"
       end.

(** [a[:hi]]: panics when [hi] is negative or beyond the length. *)
Definition slice_to {A} (a : list A) (hi : Z) : result (list A) :=
  if (hi <? 0) || (len a <? hi) then Panic "slice bounds out of range"
  else Ok (take (Z.to_nat hi) a).

(** [a[lo:]]: panics when [lo] is negative or beyond the length. *)
Definition slice_from {A} (a : list A) (lo : Z) : result (list A) :=
  if (lo <? 0) || (len a <? lo) then Panic "slice bounds out of range"
  else Ok (drop (Z.to_nat lo) a).

(** ** Strings: [strings.Split], [strings.Join], [path.Base] *)

Definition dot : ascii := "."%char.
Definition slash : ascii := "/"%char.

Fixpoint contains_byte (c : ascii) (s : string) : bool :=
  match s with
  | EmptyString => false
  | String a s' => Ascii.eqb a c || contains_byte c s'
  end.

(** [strings.Split(s, sep)] for a separator of one byte, the only way the
    source calls it: the substrings between the separators, in order.  The
    result has one element more than [s] has separators. *)
Fixpoint strings_Split (s : string) (sep : ascii) : list string :=
  match s with
  | EmptyString => [EmptyString]
  | String a s' =>
      if Ascii.eqb a sep then EmptyString :: strings_Split s' sep
      else match strings_Split s' sep with
           | [] => [String a EmptyString]
           | h :: t => String a h :: t
           end
  end.

(** [strings.Join(elems, sep)]. *)
Fixpoint strings_Join (elems : list string) (sep : string) : string :=
  match elems with
  | [] => EmptyString
  | [x] => x
  | x :: rest => x +:+ sep +:+ strings_Join rest sep
  end.

(** The loop [for len(p) > 0 && p[len(p)-1] == '/' { p = p[:len(p)-1] }]. *)
Fixpoint strip_trailing_slashes (p : string) : string :=
  match p with
  | EmptyString => EmptyString
  | String a p' =>
      match strip_trailing_slashes p' with
      | EmptyString => if Ascii.eqb a slash then EmptyString
                       else String a EmptyString
      | r => String a r
      end
  end.

(** [strings.LastIndex(p, "/")]: -1 when there is no slash. *)
Fixpoint last_index_slash (p : string) : Z :=
  match p with
  | EmptyString => -1
  | String a p' =>
      let r := last_index_slash p' in
      if 0 <=? r then r + 1
      else if Ascii.eqb a slash then 0 else -1
  end.

(** [p[i:]] on a string. *)
Fixpoint string_drop (n : nat) (p : string) : string :=
  match n, p with
  | O, _ => p
  | S n', String _ p' => string_drop n' p'
  | S _, EmptyString => EmptyString
  end.

(** [path.Base]: the last element of a slash-separated path. *)
Definition path_Base (p : string) : string :=
  if String.eqb p "" then "."
  else
    let p1 := strip_trailing_slashes p in
    let i := last_index_slash p1 in
    let p2 := if 0 <=? i then string_drop (Z.to_nat (i + 1)) p1 else p1 in
    if String.eqb p2 "" then "/" else p2.

(** [filepath.Base] where the separator is the slash and there are no
    volume names (every platform but Windows). *)
Definition filepath_Base (p : string) : string := path_Base p.

(** [%d] of an [int]. *)
Definition format_int (z : Z) : string :=
  NilEmpty.string_of_int (Z.to_int z).

(** ** Frames *)

Record frame : Type := mkframe {
  file : string;
  line : Z;
  function : string
}.

(** The zero value of the struct. *)
Definition zero_frame : frame := mkframe "" 0 "".

Definition Path (f : frame) : result string := Ok (file f).

Definition File (f : frame) : result string := Ok (filepath_Base (file f)).

Definition Line (f : frame) : result Z := Ok (line f).

Definition Func (f : frame) : result string :=
  let fs := strings_Split (path_Base (function f)) dot in
  if 1 <=? len fs then
    rest ← slice_from fs 1;
    Ok (strings_Join rest ".")
  else index fs 0.

Definition Pkg (f : frame) : result string :=
  let fs := strings_Split (path_Base (function f)) dot in
  index fs 0.

(** ** Slices *)

(** A Go slice: [nil], or a sequence of elements.  [nil] has length zero
    but is told apart from an empty slice by [cs == nil]. *)
Inductive slice (A : Type) : Type :=
| nil_slice
| mk_slice (elems : list A).
Arguments nil_slice {A}.
Arguments mk_slice {A} elems.

Definition elems {A} (s : slice A) : list A :=
  match s with
  | nil_slice => []
  | mk_slice l => l
  end.

Definition is_nil {A} (s : slice A) : bool :=
  match s with
  | nil_slice => true
  | mk_slice _ => false
  end.

(** [make([]T, 0, n)]: empty and not nil. *)
Definition make_empty {A} (capacity : Z) : slice A := mk_slice [].

(** [append(s, x)]: never nil. *)
Definition append {A} (s : slice A) (x : A) : slice A :=
  mk_slice (elems s ++ [x]).

(** [a[i] = v]: panics when the index is out of range. *)
Definition store {A} (a : list A) (i : Z) (v : A) : result (list A) :=
  if (i <? 0) || (len a <=? i) then Panic "index out of range"
  else Ok (<[Z.to_nat i := v]> a).

(** ** The interface [Frame] *)

(** A value of another type that implements [Frame]: what each of its
    methods returns, and what package [fmt] prints for the value under
    [%+v]. *)
Record foreign_Frame : Type := mk_foreign_Frame {
  foreign_Path : result string;
  foreign_File : result string;
  foreign_Line : result Z;
  foreign_Func : result string;
  foreign_Pkg : result string;
  foreign_plus_v : string
}.

(** A value of the interface type: nil, the struct [frame] of this package,
    or a value of another type. *)
Inductive Frame : Type :=
| nil_Frame
| own (f : frame)
| foreign (m : foreign_Frame).

Definition nil_dereference : string :=
  "runtime error: invalid memory address or nil pointer dereference".

(** [pc.Func()] on a value of the interface: the call on nil panics. *)
Definition Frame_Func (pc : Frame) : result string :=
  match pc with
  | nil_Frame => Panic nil_dereference
  | own f => Func f
  | foreign m => foreign_Func m
  end.

(** [type CallStack []Frame]. *)
Definition CallStack : Type := slice Frame.

(** ** The runtime: [runtime.Callers] and [runtime.CallersFrames] *)

(** The fields of [runtime.Frame] that the source reads. *)
Record runtime_Frame : Type := mk_runtime_Frame {
  rt_File : string;
  rt_Line : Z;
  rt_Function : string
}.

Definition zero_runtime_Frame : runtime_Frame := mk_runtime_Frame "" 0 "".

(** [frame{f.File, f.Line, f.Function}]. *)
Definition frame_of (f : runtime_Frame) : frame :=
  mkframe (rt_File f) (rt_Line f) (rt_Function f).

(** A call that encloses an inlined one: the program counter that stands
    for it in a list made by [runtime.Callers] (its virtual return
    address), its frame, whether its function is a compiler-made wrapper,
    and whether wrappers are left out when they call its function. *)
Record enclosing_call : Type := mk_enclosing_call {
  virtual_pc : uintptr;
  call_frame : runtime_Frame;
  is_wrapper : bool;
  call_elides : bool
}.

(** What the symbol table knows of a program counter: the frame of the
    innermost call there, whether wrappers are left out when they call its
    function, and the calls it was inlined into, innermost first (none
    when the call was not inlined).  Looking up the virtual return address
    of an enclosing call gives that call with the calls that enclose it in
    turn. *)
Record pc_info : Type := mk_pc_info {
  innermost : runtime_Frame;
  elides : bool;
  enclosing : list enclosing_call
}.

(** The frames [Next] inserts after the frame of an inlined call, when the
    list of program counters goes on with [next].  A list that comes from
    a printed stack trace holds no virtual return addresses: unless the
    address that follows is the one of the enclosing call, the frame of
    that call is inserted, and then those of the calls enclosing it in the
    same way; wrappers are passed over as [runtime.Callers] does.  Nothing
    is inserted at the end of the list. *)
Fixpoint inserted (next : option uintptr) (cur_elides : bool)
  (chain : list enclosing_call) : list runtime_Frame :=
  match chain with
  | [] => []
  | e :: outer =>
      match next with
      | None => []
      | Some c =>
          if N.eqb c (virtual_pc e) then []
          else if is_wrapper e && cur_elides
               then inserted next cur_elides outer
               else call_frame e :: inserted next (call_elides e) outer
      end
  end.

(** [runtime.Frames]: the program counters not yet looked up and the frames
    looked up but not yet returned. *)
Record Frames : Type := mk_Frames {
  callers : list uintptr;
  frames : list runtime_Frame
}.

Definition inspect {A} (a : A) : {b : A | a = b} := exist _ a eq_refl.

Section Runtime.

(** The return program counters on the stack of the running goroutine
    when [Callers] calls [runtime.Callers], innermost first: index 0 is
    [runtime.Callers] itself, index 1 is [Callers], index 2 is the caller
    of [Callers], and so on outward. *)
Variable stack : list uintptr.

(** The symbol table; nothing is known of an address that lies in no
    function. *)
Variable symtab : uintptr -> option pc_info.

(** What [runtime.Callers] finds for the skip it is given: the stack
    without its [skip] innermost entries.  The runtime skips an entry
    while [skip > 0], so that a negative skip leaves out none. *)
Definition found (skip : Z) : list uintptr :=
  drop (Z.to_nat skip) stack.

(** [runtime.Callers(skip, pc)]: fills [pc] with the return program
    counters of the stack after skipping [skip] of them and returns how
    many it wrote, at most [len(pc)]. *)
Definition runtime_Callers (skip : Z) (pc : list uintptr)
  : Z * list uintptr :=
  let written := take (length pc) (found skip) in
  (len written, written ++ drop (length written) pc).

(** [runtime.CallersFrames(pcs)]. *)
Definition runtime_CallersFrames (pcs : list uintptr) : Frames :=
  mk_Frames pcs [].

(** The frames a program counter gives when the list goes on with [next]:
    none for an unknown address, and otherwise the frame of the innermost
    call followed by the frames inserted for the enclosing calls. *)
Definition frames_at (next : option uintptr) (pc : uintptr)
  : list runtime_Frame :=
  match symtab pc with
  | None => []
  | Some i => innermost i :: inserted next (elides i) (enclosing i)
  end.

(** The lookup loop of [Next]: it keeps two frames at hand, so as to know
    whether more follow. *)
Fixpoint lookup_ahead (pcs : list uintptr) (fr : list runtime_Frame)
  : list uintptr * list runtime_Frame :=
  if 2 <=? len fr then (pcs, fr)
  else match pcs with
       | [] => ([], fr)
       | pc :: rest => lookup_ahead rest (fr ++ frames_at (head rest) pc)
       end.

(** [Next] of [runtime.Frames]: the next frame, whether more follow, and the
    iterator after the call.  When nothing is left the frame is the zero
    value. *)
Definition Next (ci : Frames) : runtime_Frame * bool * Frames :=
  let '(pcs, fr) := lookup_ahead (callers ci) (frames ci) in
  match fr with
  | [] => (zero_runtime_Frame, false, mk_Frames pcs [])
  | f :: rest => (f, 0 <? len rest, mk_Frames pcs rest)
  end.

(** The frames each program counter of a list gives, in its place. *)
Fixpoint resolve_each (pcs : list uintptr) : list (list runtime_Frame) :=
  match pcs with
  | [] => []
  | pc :: rest => frames_at (head rest) pc :: resolve_each rest
  end.

(** The frames an iterator has yet to return. *)
Definition remaining (ci : Frames) : list runtime_Frame :=
  frames ci ++ concat (resolve_each (callers ci)).

(** The loop of both capture functions:
    [for { f, more := fs.Next(); cs = append(cs, frame{...});
           if !more { break } }]. *)
Equations? collect (fs : Frames) (cs : CallStack) : CallStack
  by wf (length (remaining fs)) lt :=
  collect fs cs with inspect (Next fs) := {
    | exist _ (f, true, fs') Heq =>
        collect fs' (append cs (own (frame_of f)))
    | exist _ (f, false, fs') Heq => append cs (own (frame_of f)) }.
Proof.
  assert (Hahead : forall pcs fr pcs' fr',
             lookup_ahead pcs fr = (pcs', fr') ->
             fr' ++ concat (resolve_each pcs')
             = fr ++ concat (resolve_each pcs)).
  { induction pcs as [|pc rest IH]; intros fr pcs' fr' H; simpl in H.
    - destruct (2 <=? len fr); injection H as <- <-; reflexivity.
    - destruct (2 <=? len fr).
      + injection H as <- <-; reflexivity.
      + apply IH in H. rewrite H. simpl.
        rewrite <- List.app_assoc. reflexivity. }
  unfold Next in Heq. unfold remaining.
  destruct (lookup_ahead (callers fs) (frames fs)) as [pcs fr] eqn:E.
  apply Hahead in E. rewrite <- E.
  destruct fr as [|g rest]; [discriminate|].
  injection Heq as _ _ <-. simpl. lia.
Qed.

(** ** The capture functions *)

Definition Callers (skip : Z) : result CallStack :=
  let pcs0 : list uintptr := replicate 32 0%N in
  let '(n, pcs) := runtime_Callers (int_add skip 2) pcs0 in
  if n =? 0 then Ok nil_slice
  else
    captured ← slice_to pcs n;
    let fs := runtime_CallersFrames captured in
    let cs : CallStack := make_empty n in
    Ok (collect fs cs).

(** [for i, v := range st { pcs[i] = uintptr(v) }], from index [i] on.
    [errors.Frame] of package [pkg/errors] is a [uintptr]. *)
Fixpoint copy_trace (i : Z) (st : list uintptr) (pcs : list uintptr)
  : result (list uintptr) :=
  match st with
  | [] => Ok pcs
  | v :: rest => pcs' ← store pcs i v; copy_trace (i + 1) rest pcs'
  end.

Definition CallStackFromPkgErrors (st : list uintptr) : result CallStack :=
  pcs ← copy_trace 0 st (replicate (length st) 0%N);
  let fs := runtime_CallersFrames pcs in
  let cs : CallStack := make_empty (len pcs) in
  Ok (collect fs cs).

End Runtime.

(** ** Formatting *)

Definition rune : Type := Z.

Definition rune_of (c : ascii) : rune := Z.of_N (N_of_ascii c).

(** [fmt.State]: the flags of the directive being printed and the text
    written so far. *)
Record State : Type := mk_State {
  Flag : rune -> bool;
  written : string
}.

(** [Write]: what [fmt.Fprintf] does to the state with its formatted text. *)
Definition Write (s : State) (text : string) : State :=
  mk_State (Flag s) (written s +:+ text).

(** The printer [fmt.Fprintf] hands to a [Format] method: the only flag it
    can carry here is the plus of [%+v]. *)
Definition printer (plus : bool) : State :=
  mk_State (fun c => plus && (c =? rune_of "+")) "".

(** [fmt] recovers a panic of a [Format] method and prints this in its
    place. *)
Definition recovered (m : string) : string :=
  "%!v(PANIC=Format method: " +:+ m +:+ ")".

(** The text a [Format] method left in its printer. *)
Definition printed (r : result State) : string :=
  match r with
  | Ok p => written p
  | Panic m => recovered m
  end.

(** [frame.Format]: [[Func] path:line] for [%+v], [path:line] for [%v] and
    [%s], nothing for other verbs. *)
Definition frame_Format (f : frame) (s : State) (verb : rune) : result State :=
  let path_line (s : State) : result State :=
    p ← Path f;
    l ← Line f;
    Ok (Write s (p +:+ ":" +:+ format_int l)) in
  if verb =? rune_of "v" then
    s1 ← (if Flag s (rune_of "+")
          then fn ← Func f; Ok (Write s ("[" +:+ fn +:+ "] "))
          else Ok s);
    path_line s1
  else if verb =? rune_of "s" then path_line s
  else Ok s.

(** What [fmt.Fprintf] prints for [%+v] of a value of the interface: the
    nil value as [<nil>], a frame of this package through its [Format]
    method. *)
Definition Frame_plus_v (pc : Frame) : string :=
  match pc with
  | nil_Frame => "<nil>"
  | own f => printed (frame_Format f (printer true) (rune_of "v"))
  | foreign m => foreign_plus_v m
  end.

(** How a call of [CallStack.Format] ends: it returns, or it panics; what
    it wrote before stays written in both cases. *)
Inductive outcome : Type :=
| Returned (s : State)
| Panicked (s : State) (m : string).

Definition returns (o : outcome) : Prop := exists s, o = Returned s.

(** The text a [Format] method left in its printer, with what [fmt] adds
    when it recovers a panic of the method. *)
Definition printed_outcome (o : outcome) : string :=
  match o with
  | Returned p => written p
  | Panicked p m => written p +:+ recovered m
  end.

(** [for _, pc := range init { fmt.Fprintf(s, "%s: ", pc.Func()) }]. *)
Fixpoint write_funcs (init : list Frame) (s : State) : outcome :=
  match init with
  | [] => Returned s
  | pc :: rest =>
      match Frame_Func pc with
      | Ok fn => write_funcs rest (Write s (fn +:+ ": "))
      | Panic m => Panicked s m
      end
  end.

(** The statements of the default case after the guard on the length. *)
Definition Format_joined (cs : CallStack) (s : State) (l : Z) : outcome :=
  match slice_to (elems cs) (l - 1) with
  | Panic m => Panicked s m
  | Ok init =>
      match write_funcs init s with
      | Panicked s1 m => Panicked s1 m
      | Returned s1 =>
          match index (elems cs) (l - 1) with
          | Panic m => Panicked s1 m
          | Ok last =>
              match Frame_Func last with
              | Panic m => Panicked s1 m
              | Ok fn => Returned (Write s1 fn)
              end
          end
      end
  end.

(** The default case of the verb [v]: the function names, outermost last,
    joined by a colon and a space. *)
Definition Format_default (cs : CallStack) (s : State) : outcome :=
  let l := len (elems cs) in
  if l =? 0 then Returned s
  else Format_joined cs s l.

Section Formatting.

(** The rendering of a slice of frames in Go syntax, [%#v] of package
    [fmt], which works by reflection. *)
Variable go_syntax : CallStack -> string.

(** [CallStack.Format]. *)
Definition CallStack_Format (cs : CallStack) (s : State) (verb : rune)
  : outcome :=
  if verb =? rune_of "v" then
    if Flag s (rune_of "+") then
      Returned (foldl (fun s pc =>
                         Write s (Frame_plus_v pc +:+ String "010" EmptyString))
                      s (elems cs))
    else if Flag s (rune_of "#") then
      Returned (Write s (go_syntax cs))
    else Format_default cs s
  else if verb =? rune_of "s" then
    (* fmt.Fprintf(s, "%v", cs) calls this method again on a printer
       without flags, with the verb v: its default case. *)
    Returned (Write s (printed_outcome (Format_default cs (printer false))))
  else Returned s.

End Formatting.

(** ** What a capture is expected to hold *)

(** The frames of a sequence of program counters, in their order. *)
Definition resolve_all (symtab : uintptr -> option pc_info)
  (pcs : list uintptr) : list frame :=
  map frame_of (concat (resolve_each symtab pcs)).

(** What the capture loop appends: the frames found, or one zero-valued
    frame when none is found. *)
Definition or_zero_frame (l : list frame) : list frame :=
  match l with
  | [] => [zero_frame]
  | _ :: _ => l
  end.

(** The program counters [Callers] hands to [runtime.CallersFrames]. *)
Definition captured (stack : list uintptr) (skip : Z) : list uintptr :=
  let '(n, pcs) :=
    runtime_Callers stack (int_add skip 2) (replicate 32 0%N) in
  take (Z.to_nat n) pcs.

(** Every program counter of the list stands for one call frame where it
    is: it is known, and no frame is inserted after its own.  Such is a
    list made by [runtime.Callers], which holds the virtual return
    addresses of the calls that enclose an inlined one. *)
Definition one_frame_each (symtab : uintptr -> option pc_info)
  (pcs : list uintptr) : Prop :=
  Forall (fun fs => length fs = 1%nat) (resolve_each symtab pcs).

(** ** An example runtime *)

(** A running stack for the examples: [runtime.Callers], [Callers], the
    constructor that called it, and two functions of an application. *)
Definition example_stack : list uintptr := [1; 2; 3; 4; 5]%N.

(** The symbol table of the examples.  The address 6 lies in a call
    inlined into the function of the address 7. *)
Definition example_symtab (pc : uintptr) : option pc_info :=
  match pc with
  | 1%N => Some (mk_pc_info
             (mk_runtime_Frame "/go/src/runtime/extern.go" 229
                "runtime.Callers") true [])
  | 2%N => Some (mk_pc_info
             (mk_runtime_Frame "/src/failure/callstack.go" 45
                "github.com/morikuni/failure.Callers") true [])
  | 3%N => Some (mk_pc_info
             (mk_runtime_Frame "/src/failure/failure.go" 20
                "github.com/morikuni/failure.New") true [])
  | 4%N => Some (mk_pc_info
             (mk_runtime_Frame "/src/app/acl.go" 21 "main.GetACL") true [])
  | 5%N => Some (mk_pc_info
             (mk_runtime_Frame "/src/app/main.go" 33 "main.main") true [])
  | 6%N => Some (mk_pc_info
             (mk_runtime_Frame "/src/app/inl.go" 12 "main.mid") true
             [mk_enclosing_call 7%N
                (mk_runtime_Frame "/src/app/inl.go" 18 "main.outer")
                false true])
  | 7%N => Some (mk_pc_info
             (mk_runtime_Frame "/src/app/inl.go" 18 "main.outer") true [])
  | _ => None
  end.

(** * Properties *)

(** ** Sequencing *)

Lemma bind_Ok {A B} (a : A) (k : A -> result B) : Ok a ≫= k = k a.
Proof. reflexivity. Qed.

(** ** Strings *)

Section StringFacts.

Lemma append_Empty (t : string) : "" +:+ t = t.
Proof. reflexivity. Qed.

Lemma append_String (a : ascii) (s t : string) :
  String a s +:+ t = String a (s +:+ t).
Proof. reflexivity. Qed.

Lemma strings_Split_cons (s : string) (sep : ascii) :
  exists h t, strings_Split s sep = h :: t.
Proof.
  induction s as [|a s [h [t IH]]]; simpl.
  - eauto.
  - destruct (Ascii.eqb a sep); [eauto|]. rewrite IH. eauto.
Qed.

Lemma strings_Split_len (s : string) (sep : ascii) :
  1 <= len (strings_Split s sep).
Proof.
  destruct (strings_Split_cons s sep) as [h [t ->]].
  unfold len. simpl. lia.
Qed.

(** Joining the pieces with the separator gives the string back. *)
Lemma strings_Join_Split (s : string) (sep : ascii) :
  strings_Join (strings_Split s sep) (String sep "") = s.
Proof.
  induction s as [|a s IH]; simpl; [reflexivity|].
  destruct (Ascii.eqb_spec a sep) as [->|Hne].
  - destruct (strings_Split_cons s sep) as [h [t E]].
    rewrite E in *.
    change (strings_Join ("" :: h :: t) (String sep ""))
      with ("" +:+ String sep "" +:+ strings_Join (h :: t) (String sep "")).
    now rewrite IH.
  - destruct (strings_Split_cons s sep) as [h [t E]].
    rewrite E in *. destruct t as [|x t].
    + simpl in *. now rewrite IH.
    + change (strings_Join (String a h :: x :: t) (String sep ""))
        with (String a h +:+ String sep ""
              +:+ strings_Join (x :: t) (String sep "")).
      rewrite append_String. f_equal. exact IH.
Qed.

(** The first piece holds no separator. *)
Lemma strings_Split_head (s : string) (sep : ascii) (h : string)
  (t : list string) :
  strings_Split s sep = h :: t -> contains_byte sep h = false.
Proof.
  revert h t. induction s as [|a s IH]; simpl; intros h t H.
  - now injection H as <- <-.
  - destruct (Ascii.eqb a sep) eqn:Ea.
    + now injection H as <- <-.
    + destruct (strings_Split_cons s sep) as [h' [t' E]].
      rewrite E in H. injection H as <- <-. simpl.
      rewrite Ea. simpl. eauto.
Qed.

(** There is a second piece exactly when the string holds a separator. *)
Lemma strings_Split_tail (s : string) (sep : ascii) (h : string)
  (t : list string) :
  strings_Split s sep = h :: t ->
  contains_byte sep s = negb (bool_decide (t = [])).
Proof.
  revert h t. induction s as [|a s IH]; simpl; intros h t H.
  - now injection H as <- <-.
  - destruct (Ascii.eqb a sep) eqn:Ea; simpl.
    + destruct (strings_Split_cons s sep) as [h' [t' E]].
      rewrite E in H. now injection H as <- <-.
    + destruct (strings_Split_cons s sep) as [h' [t' E]].
      rewrite E in H. injection H as <- <-. eauto.
Qed.

Lemma contains_byte_string_drop (c : ascii) (n : nat) (p : string) :
  contains_byte c p = false -> contains_byte c (string_drop n p) = false.
Proof.
  revert p. induction n as [|n IH]; intros [|a p]; simpl; auto.
  intros H. apply orb_false_iff in H as [_ H]. auto.
Qed.

Lemma contains_byte_strip (c : ascii) (p : string) :
  contains_byte c p = false ->
  contains_byte c (strip_trailing_slashes p) = false.
Proof.
  induction p as [|a p IH]; simpl; [reflexivity|].
  intros H. apply orb_false_iff in H as [Ha Hp]. specialize (IH Hp).
  destruct (strip_trailing_slashes p) as [|b r].
  - destruct (Ascii.eqb a slash); simpl; [reflexivity|].
    now rewrite Ha.
  - change (contains_byte c (String a (String b r)))
      with (Ascii.eqb a c || contains_byte c (String b r)).
    now rewrite Ha, IH.
Qed.

(** A name without a dot has a base without a dot, the empty name apart:
    its base is the dot itself. *)
Lemma path_Base_no_dot (p : string) :
  p <> "" -> contains_byte dot p = false ->
  contains_byte dot (path_Base p) = false.
Proof.
  intros Hne H. unfold path_Base.
  destruct (String.eqb_spec p "") as [->|_]; [congruence|].
  cbv zeta.
  set (p1 := strip_trailing_slashes p).
  assert (H1 : contains_byte dot p1 = false) by now apply contains_byte_strip.
  set (p2 := if 0 <=? last_index_slash p1
             then string_drop (Z.to_nat (last_index_slash p1 + 1)) p1
             else p1).
  assert (H2 : contains_byte dot p2 = false).
  { unfold p2. destruct (0 <=? last_index_slash p1); [|exact H1].
    now apply contains_byte_string_drop. }
  destruct (String.eqb p2 ""); [reflexivity | exact H2].
Qed.

End StringFacts.

(** ** The last element of a path *)

Section PathFacts.

Lemma last_index_slash_ge (p : string) : -1 <= last_index_slash p.
Proof.
  induction p as [|a p IH]; simpl; [lia|].
  destruct (Z.leb_spec 0 (last_index_slash p)); [lia|].
  destruct (Ascii.eqb a slash); lia.
Qed.

(** Without an index there is no slash. *)
Lemma last_index_slash_none (p : string) :
  last_index_slash p < 0 -> contains_byte slash p = false.
Proof.
  induction p as [|a p IH]; simpl; [reflexivity|].
  pose proof (last_index_slash_ge p) as Hge.
  destruct (Z.leb_spec 0 (last_index_slash p)); [lia|].
  destruct (Ascii.eqb a slash); simpl; [lia|]. auto.
Qed.

(** At the index there is a slash and after it there is none. *)
Lemma last_index_slash_some (p : string) :
  0 <= last_index_slash p ->
  let rest := string_drop (Z.to_nat (last_index_slash p + 1)) p in
  contains_byte slash rest = false /\
  exists d, p = d +:+ String slash rest.
Proof.
  induction p as [|a p IH]; simpl; [lia|].
  destruct (Z.leb_spec 0 (last_index_slash p)) as [Hr|Hr].
  - intros _. specialize (IH Hr). cbv zeta in IH.
    replace (Z.to_nat (last_index_slash p + 1 + 1))
      with (S (Z.to_nat (last_index_slash p + 1))) by lia.
    simpl. destruct IH as [Hno [d Hd]]. split; [exact Hno|].
    exists (String a d). rewrite append_String. now rewrite <- Hd.
  - destruct (Ascii.eqb_spec a slash) as [->|Hne]; [|lia].
    intros _. simpl. split.
    + now apply last_index_slash_none.
    + now exists "".
Qed.

(** [path.Base] returns the last element of the path: a single slash for
    a path of slashes only, and otherwise a name without a slash that
    ends the path (trailing slashes dropped) and follows a slash or
    starts the path. *)
Lemma path_Base_last_element (p : string) :
  p <> "" ->
  path_Base p = "/" \/
  (contains_byte slash (path_Base p) = false /\
   exists dir, strip_trailing_slashes p = dir +:+ path_Base p /\
               (dir = "" \/ exists d, dir = d +:+ "/")).
Proof.
  intros Hne. unfold path_Base.
  destruct (String.eqb_spec p "") as [->|_]; [congruence|].
  cbv zeta. set (p1 := strip_trailing_slashes p).
  destruct (Z.leb_spec 0 (last_index_slash p1)) as [Hi|Hi].
  - destruct (last_index_slash_some p1 Hi) as [Hno [d Hd]].
    set (p2 := string_drop (Z.to_nat (last_index_slash p1 + 1)) p1) in *.
    destruct (String.eqb_spec p2 "") as [_|_]; [now left|].
    right. split; [exact Hno|]. exists (d +:+ "/"). split; [|eauto].
    rewrite Hd at 1. clear. induction d as [|a d IH]; [reflexivity|].
    rewrite !append_String. now rewrite IH.
  - destruct (String.eqb_spec p1 "") as [_|_]; [now left|].
    right. split; [now apply last_index_slash_none|].
    exists "". split; [reflexivity | now left].
Qed.

End PathFacts.

(** ** The accessors *)

Section AccessorFacts.

Lemma index_head {A} (h : A) (t : list A) : index (h :: t) 0 = Ok h.
Proof.
  unfold index, len. simpl length.
  destruct (Z.leb_spec (Z.of_nat (S (length t))) 0); [lia|]. reflexivity.
Qed.

Lemma slice_from_tail {A} (h : A) (t : list A) :
  slice_from (h :: t) 1 = Ok t.
Proof.
  unfold slice_from, len. simpl length.
  destruct (Z.ltb_spec (Z.of_nat (S (length t))) 1); [lia|]. reflexivity.
Qed.

(** Both accessors in terms of the pieces of the base of the qualified
    name: [Pkg] is the first piece, [Func] the others joined again. *)
Lemma Pkg_Func_pieces (f : frame) (h : string) (t : list string) :
  strings_Split (path_Base (function f)) dot = h :: t ->
  Pkg f = Ok h /\ Func f = Ok (strings_Join t ".").
Proof.
  intros E. unfold Pkg, Func. cbv zeta.
  pose proof (strings_Split_len (path_Base (function f)) dot) as Hlen.
  destruct (Z.leb_spec 1 (len (strings_Split (path_Base (function f)) dot)));
    [|lia].
  rewrite E, index_head, slice_from_tail. split; reflexivity.
Qed.

Lemma Func_succeeds (f : frame) : succeeds (Func f).
Proof.
  destruct (strings_Split_cons (path_Base (function f)) dot) as [h [t E]].
  destruct (Pkg_Func_pieces f h t E) as [_ ->]. now eexists.
Qed.

Lemma Pkg_succeeds (f : frame) : succeeds (Pkg f).
Proof.
  destruct (strings_Split_cons (path_Base (function f)) dot) as [h [t E]].
  destruct (Pkg_Func_pieces f h t E) as [-> _]. now eexists.
Qed.

End AccessorFacts.

(** C6.  The derived accessors of a frame.  [File] returns the base name of
    the stored path, which is its last element.  With [b] the base of the
    qualified function name, [Pkg] returns the segment of [b] before its
    first dot and [Func] returns [b] with that segment and the dot
    stripped: [b] is [Pkg], a dot, [Func], and [Pkg] holds no dot.  When
    [b] holds no dot, [Pkg] is all of [b] and [Func] is empty. *)
Theorem accessors_derived (f : frame) :
  (File f = Ok (filepath_Base (file f)) /\
   (file f <> "" ->
    filepath_Base (file f) = "/" \/
    (contains_byte slash (filepath_Base (file f)) = false /\
     exists dir,
       strip_trailing_slashes (file f) = dir +:+ filepath_Base (file f) /\
       (dir = "" \/ exists d, dir = d +:+ "/")))) /\
  exists pkg fn,
    Pkg f = Ok pkg /\ Func f = Ok fn /\
    contains_byte dot pkg = false /\
    (if contains_byte dot (path_Base (function f))
     then path_Base (function f) = pkg +:+ "." +:+ fn
     else pkg = path_Base (function f) /\ fn = "").
Proof.
  split.
  - split; [reflexivity|]. intros Hne. now apply path_Base_last_element.
  - destruct (strings_Split_cons (path_Base (function f)) dot) as [h [t E]].
    destruct (Pkg_Func_pieces f h t E) as [HP HF].
    exists h, (strings_Join t "."). repeat split; try assumption.
    + eapply strings_Split_head; eauto.
    + pose proof (strings_Join_Split (path_Base (function f)) dot) as HJ.
      rewrite (strings_Split_tail _ _ _ _ E). rewrite E in HJ.
      destruct t as [|x t].
      * simpl in *. auto.
      * change (negb (bool_decide (x :: t = []))) with true. cbv iota.
        symmetry. exact HJ.
Qed.

(** The theorem at the frame of a method in a package below a domain. *)
Lemma accessors_derived_witness :
  File (mkframe "/go/src/app/main.go" 7 "example.com/app.Server.run")
    = Ok "main.go" /\
  Pkg (mkframe "/go/src/app/main.go" 7 "example.com/app.Server.run")
    = Ok "app" /\
  Func (mkframe "/go/src/app/main.go" 7 "example.com/app.Server.run")
    = Ok "Server.run" /\
  exists dir, "/go/src/app/main.go" = dir +:+ "main.go".
Proof.
  pose proof (accessors_derived
                (mkframe "/go/src/app/main.go" 7 "example.com/app.Server.run"))
    as [[HF Hlast] _].
  split; [exact HF|]. split; [reflexivity|]. split; [reflexivity|].
  destruct Hlast as [Habs | [_ [dir [Hdir _]]]].
  - simpl. discriminate.
  - discriminate Habs.
  - exists dir. exact Hdir.
Defined.

(** C9.  In [Func] the test [len(fs) >= 1] holds for every frame, since a
    split yields at least one piece; the branch [return fs[0]] is never
    taken and [Func] is the join of the pieces after the first.  So for a
    frame whose qualified function name holds no dot, [Func] returns the
    empty string and not the name. *)
Theorem Func_fallback_unreachable (f : frame) :
  let fs := strings_Split (path_Base (function f)) dot in
  (1 <=? len fs) = true /\
  Func f = Ok (strings_Join (drop 1 fs) ".") /\
  (contains_byte dot (function f) = false -> Func f = Ok "").
Proof.
  cbv zeta.
  destruct (strings_Split_cons (path_Base (function f)) dot) as [h [t E]].
  destruct (Pkg_Func_pieces f h t E) as [_ HF].
  pose proof (strings_Split_len (path_Base (function f)) dot) as Hlen.
  split; [apply Z.leb_le; exact Hlen|].
  split; [rewrite E; exact HF|].
  intros Hno. rewrite HF.
  destruct (String.eqb_spec (function f) "") as [He|Hne].
  - unfold path_Base in E. rewrite He in E. simpl in E.
    injection E as <- <-. reflexivity.
  - pose proof (path_Base_no_dot _ Hne Hno) as Hb.
    rewrite (strings_Split_tail _ _ _ _ E) in Hb.
    destruct t as [|x t]; [reflexivity | discriminate Hb].
Qed.

(** The theorem at a function name without package qualifier. *)
Lemma Func_fallback_unreachable_witness :
  Func (mkframe "/go/src/app/main.go" 7 "main") = Ok "".
Proof.
  apply (Func_fallback_unreachable (mkframe "/go/src/app/main.go" 7 "main")).
  reflexivity.
Defined.

(** ** Formatting a call stack *)

Section FormatFacts.

Lemma append_assoc (a b c : string) : (a +:+ b) +:+ c = a +:+ b +:+ c.
Proof.
  induction a as [|x a IH]; [reflexivity|].
  rewrite !append_String. now rewrite IH.
Qed.

Lemma append_Empty_r (a : string) : a +:+ "" = a.
Proof.
  induction a as [|x a IH]; [reflexivity|].
  rewrite append_String. now rewrite IH.
Qed.

Lemma slice_to_in_range {A} (a : list A) (hi : Z) :
  0 <= hi <= len a -> slice_to a hi = Ok (take (Z.to_nat hi) a).
Proof.
  intros H. unfold slice_to.
  destruct (Z.ltb_spec hi 0); [lia|].
  destruct (Z.ltb_spec (len a) hi); [lia|]. reflexivity.
Qed.

Lemma index_last {A} (init : list A) (final : A) :
  index (init ++ [final]) (len (init ++ [final]) - 1) = Ok final.
Proof.
  assert (Hlen : len (init ++ [final]) = len init + 1).
  { unfold len. rewrite length_app. simpl. lia. }
  assert (0 <= len init) by (unfold len; lia).
  unfold index. rewrite Hlen.
  destruct (Z.ltb_spec (len init + 1 - 1) 0); [lia|].
  destruct (Z.leb_spec (len init + 1) (len init + 1 - 1)); [lia|].
  simpl orb. cbv iota.
  replace (Z.to_nat (len init + 1 - 1)) with (length init)
    by (unfold len; lia).
  now rewrite list_lookup_middle.
Qed.

(** The loop over [cs[:l-1]] writes each name followed by the separator,
    so that with the last name after it the text is the names joined; or
    it stops at the first element whose [Func] panics. *)
Lemma write_funcs_cases (init : list Frame) (s : State) :
  (exists (names : list string) (s1 : State),
      Forall2 (fun pc n => Frame_Func pc = Ok n) init names /\
      write_funcs init s = Returned s1 /\ Flag s1 = Flag s /\
      forall x : string,
        written s1 +:+ x = written s +:+ strings_Join (names ++ [x]) ": ")
  \/ (exists (pc : Frame) (m : string) (s1 : State),
         pc ∈ init /\ Frame_Func pc = Panic m /\
         write_funcs init s = Panicked s1 m).
Proof.
  revert s. induction init as [|pc init IH]; intros s.
  - left. exists [], s. split; [constructor | auto].
  - simpl write_funcs. destruct (Frame_Func pc) as [fn|m] eqn:Hpc.
    + destruct (IH (Write s (fn +:+ ": ")))
        as [(names & s1 & Hn & Hw & Hfl & Htxt) | (x & m & s1 & Hin & Hx & Hw)].
      * left. exists (fn :: names), s1.
        split; [now constructor|]. split; [exact Hw|]. split; [exact Hfl|].
        intros x. rewrite Htxt. simpl written. rewrite append_assoc.
        f_equal. destruct names; simpl; now rewrite append_assoc.
      * right. exists x, m, s1. split; [now apply list_elem_of_further|].
        auto.
    + right. exists pc, m, s. split; [apply list_elem_of_here|]. auto.
Qed.

(** The default case never leaves the bounds of the call stack.  It writes
    the names joined by a colon and a space and keeps the flags, or it
    panics where the [Func] of an element does. *)
Lemma Format_default_cases (cs : CallStack) (s : State) :
  (exists (names : list string) (s' : State),
      Forall2 (fun pc n => Frame_Func pc = Ok n) (elems cs) names /\
      Format_default cs s = Returned s' /\ Flag s' = Flag s /\
      written s' = written s +:+ strings_Join names ": ")
  \/ (exists (pc : Frame) (m : string) (s1 : State),
         pc ∈ elems cs /\ Frame_Func pc = Panic m /\
         Format_default cs s = Panicked s1 m).
Proof.
  unfold Format_default.
  assert (Hcase : elems cs = []
                  \/ exists init final, elems cs = init ++ [final]).
  { induction (elems cs) as [|final init _] using rev_ind; eauto. }
  destruct Hcase as [E | [init [final E]]]; rewrite E.
  - left. exists [], s. split; [constructor|]. split; [reflexivity|].
    split; [reflexivity|]. simpl. now rewrite append_Empty_r.
  - assert (Hlen : len (init ++ [final]) = len init + 1).
    { unfold len. rewrite length_app. simpl. lia. }
    assert (0 <= len init) by (unfold len; lia).
    destruct (Z.eqb_spec (len (init ++ [final])) 0); [lia|].
    unfold Format_joined. rewrite E, index_last.
    rewrite slice_to_in_range by lia. rewrite Hlen.
    replace (Z.to_nat (len init + 1 - 1)) with (length init)
      by (unfold len; lia).
    rewrite take_app_length.
    destruct (write_funcs_cases init s)
      as [(names & s1 & Hn & -> & Hfl & Htxt) | (x & m & s1 & Hin & Hx & ->)].
    + destruct (Frame_Func final) as [fn|m] eqn:Hfinal.
      * left. exists (names ++ [fn]), (Write s1 fn).
        split; [apply Forall2_app; [exact Hn | now repeat constructor]|].
        split; [reflexivity|]. split; [exact Hfl | apply Htxt].
      * right. exists final, m, s1.
        split; [apply elem_of_app; right; apply list_elem_of_here|]. auto.
    + right. exists x, m, s1.
      split; [apply elem_of_app; now left|]. auto.
Qed.

Lemma Func_names (l : list frame) :
  exists names : list string,
    Forall2 (fun pc n => Frame_Func pc = Ok n) (map own l) names.
Proof.
  induction l as [|f l [names IH]]; [exists []; constructor|].
  destruct (Func_succeeds f) as [n Hn].
  exists (n :: names). now constructor.
Qed.

(** A panic of an element contradicts names for all elements. *)
Lemma Forall2_no_panic (l : list Frame) (names : list string) (pc : Frame)
  (m : string) :
  Forall2 (fun pc n => Frame_Func pc = Ok n) l names ->
  pc ∈ l -> Frame_Func pc = Panic m -> False.
Proof.
  intros H Hin Hp. induction H as [|x n l names Hx _ IH].
  - now apply elem_of_nil in Hin.
  - apply elem_of_cons in Hin as [->|Hin]; [congruence | auto].
Qed.

Lemma Forall2_names_unique (l : list Frame) (names names' : list string) :
  Forall2 (fun pc n => Frame_Func pc = Ok n) l names ->
  Forall2 (fun pc n => Frame_Func pc = Ok n) l names' ->
  names = names'.
Proof.
  intros H. revert names'. induction H as [|x n l names Hx _ IH];
    intros names' H'; inversion H' as [|x' n' l' ns' Hx' Hl']; subst.
  - reflexivity.
  - f_equal; [congruence | now apply IH].
Qed.

End FormatFacts.

(** C8, as amended.  Formatting an empty call stack, nil or not, with the
    verb [v] and neither flag writes nothing: the state comes back as it
    was.  The guard on the length is what keeps [cs[:l-1]] from being
    evaluated there, for at length zero the statements behind the guard
    panic.  With the guard no slice or index expression of [Format] leaves
    its bounds, for any call stack, state and verb: [Format] returns,
    unless the [Func] of an element panics, as it does on a nil element,
    and then [Format] panics with it.  So [Format] returns for every call
    stack whose elements are frames of this package. *)
Theorem Format_empty_in_bounds (go_syntax : CallStack -> string) :
  (forall (cs : CallStack) (s : State),
     len (elems cs) = 0 ->
     Flag s (rune_of "+") = false -> Flag s (rune_of "#") = false ->
     CallStack_Format go_syntax cs s (rune_of "v") = Returned s /\
     Format_joined cs s (len (elems cs))
       = Panicked s "slice bounds out of range") /\
  (forall (cs : CallStack) (s : State) (verb : rune),
     returns (CallStack_Format go_syntax cs s verb) \/
     exists (pc : Frame) (m : string) (s1 : State),
       pc ∈ elems cs /\ Frame_Func pc = Panic m /\
       CallStack_Format go_syntax cs s verb = Panicked s1 m) /\
  (forall (cs : CallStack) (l : list frame) (s : State) (verb : rune),
     elems cs = map own l ->
     returns (CallStack_Format go_syntax cs s verb)).
Proof.
  assert (Hall : forall (cs : CallStack) (s : State) (verb : rune),
             returns (CallStack_Format go_syntax cs s verb) \/
             exists (pc : Frame) (m : string) (s1 : State),
               pc ∈ elems cs /\ Frame_Func pc = Panic m /\
               CallStack_Format go_syntax cs s verb = Panicked s1 m).
  { intros cs s verb. unfold CallStack_Format.
    destruct (verb =? rune_of "v").
    - destruct (Flag s (rune_of "+")); [left; now eexists|].
      destruct (Flag s (rune_of "#")); [left; now eexists|].
      destruct (Format_default_cases cs s)
        as [(names & s' & _ & -> & _) | Hpanic]; [left; now eexists|].
      now right.
    - destruct (verb =? rune_of "s"); left; now eexists. }
  split; [|split].
  - intros cs s Hl Hplus Hsharp. split.
    + unfold CallStack_Format. simpl. rewrite Hplus, Hsharp.
      unfold Format_default. now rewrite Hl.
    + rewrite Hl. reflexivity.
  - exact Hall.
  - intros cs l s verb E.
    destruct (Hall cs s verb) as [H | (pc & m & s1 & Hin & Hp & _)];
      [exact H|].
    exfalso. rewrite E in Hin. destruct (Func_names l) as [names Hn].
    exact (Forall2_no_panic _ _ _ _ Hn Hin Hp).
Qed.

(** The theorem at the nil call stack and at the empty one, printed with a
    plain [%v], and at a call stack of one frame of this package. *)
Lemma Format_empty_in_bounds_witness :
  CallStack_Format (fun _ => "") nil_slice (printer false) (rune_of "v")
    = Returned (printer false) /\
  CallStack_Format (fun _ => "") (mk_slice []) (printer false) (rune_of "v")
    = Returned (printer false) /\
  returns (CallStack_Format (fun _ => "") (mk_slice [own zero_frame])
             (printer false) (rune_of "v")).
Proof.
  destruct (Format_empty_in_bounds (fun _ => "")) as [Hempty [_ Hown]].
  split; [apply Hempty; reflexivity|].
  split; [apply Hempty; reflexivity|].
  apply (Hown (mk_slice [own zero_frame]) [zero_frame]). reflexivity.
Defined.

(** C8, as stated, fails: [Format] is not total over all call stacks.  A
    call stack may hold a nil element; it passes the guard on the length
    and [Format] panics at [cs[l-1].Func()]. *)
Lemma Format_nil_element_panics :
  CallStack_Format (fun _ => "") (mk_slice [nil_Frame]) (printer false)
    (rune_of "v") = Panicked (printer false) nil_dereference /\
  ~ returns (CallStack_Format (fun _ => "") (mk_slice [nil_Frame])
               (printer false) (rune_of "v")).
Proof.
  split; [reflexivity|]. intros [s H]. discriminate H.
Qed.

(** ** The frame iterator and the capture loop *)

Section LoopFacts.

Variable symtab : uintptr -> option pc_info.

(** Looking ahead loses no frame, and stops short of two frames only when
    the program counters are used up. *)
Lemma lookup_ahead_spec (pcs : list uintptr) (fr : list runtime_Frame)
  (pcs' : list uintptr) (fr' : list runtime_Frame) :
  lookup_ahead symtab pcs fr = (pcs', fr') ->
  fr' ++ concat (resolve_each symtab pcs')
  = fr ++ concat (resolve_each symtab pcs) /\
  (2 <= len fr' \/ pcs' = []).
Proof.
  revert fr. induction pcs as [|pc rest IH]; intros fr H; simpl in H.
  - destruct (Z.leb_spec 2 (len fr)); injection H as <- <-; auto.
  - destruct (Z.leb_spec 2 (len fr)).
    + injection H as <- <-; auto.
    + apply IH in H as [H1 H2]. split; [|exact H2].
      rewrite H1. simpl. now rewrite <- List.app_assoc.
Qed.

(** [Next] returns the frames in order; it reports more exactly when
    frames remain after the one returned, and returns the zero frame
    when none is left. *)
Lemma Next_spec (ci : Frames) :
  match remaining symtab ci with
  | [] => exists ci', Next symtab ci = (zero_runtime_Frame, false, ci')
  | f :: rest =>
      exists ci', Next symtab ci = (f, negb (bool_decide (rest = [])), ci')
                  /\ remaining symtab ci' = rest
  end.
Proof.
  unfold Next, remaining.
  destruct (lookup_ahead symtab (callers ci) (frames ci)) as [pcs fr] eqn:E.
  apply lookup_ahead_spec in E as [<- Hstop].
  destruct fr as [|g rest]; simpl.
  - destruct Hstop as [Hlen | ->]; [unfold len in Hlen; simpl in Hlen; lia|].
    simpl. eauto.
  - exists (mk_Frames pcs rest). split; [|reflexivity]. f_equal. f_equal.
    destruct rest as [|g' rest]; simpl.
    + destruct Hstop as [Hlen | ->];
        [unfold len in Hlen; simpl in Hlen; lia | reflexivity].
    + reflexivity.
Qed.

(** The loop appends every remaining frame in order, and one zero-valued
    frame when none remains: its body runs before the test. *)
Lemma collect_spec (fs : Frames) (cs : CallStack) :
  collect symtab fs cs
  = mk_slice (elems cs
              ++ map own (or_zero_frame
                            (map frame_of (remaining symtab fs)))).
Proof.
  funelim (collect symtab fs cs).
  - pose proof (Next_spec fs) as HN.
    destruct (remaining symtab fs) as [|g rest].
    + destruct HN as [ci' HN]. congruence.
    + destruct HN as [ci' [HN Hrem]].
      pose proof (eq_trans (eq_sym HN) Heq) as E.
      injection E as -> Hmore ->.
      match goal with IH : collect _ _ _ = mk_slice _ |- _ => rewrite IH end.
      rewrite Hrem. destruct rest as [|g' rest]; [discriminate Hmore|].
      simpl. now rewrite <- List.app_assoc.
  - pose proof (Next_spec fs) as HN.
    destruct (remaining symtab fs) as [|g rest].
    + destruct HN as [ci' HN].
      pose proof (eq_trans (eq_sym HN) Heq) as E.
      injection E as <- _. reflexivity.
    + destruct HN as [ci' [HN Hrem]].
      pose proof (eq_trans (eq_sym HN) Heq) as E.
      injection E as -> Hmore ->.
      destruct rest as [|g' rest]; [reflexivity | discriminate Hmore].
Qed.

Lemma collect_from_pcs (pcs : list uintptr) (capacity : Z) :
  collect symtab (runtime_CallersFrames pcs) (make_empty capacity)
  = mk_slice (map own (or_zero_frame (resolve_all symtab pcs))).
Proof. rewrite collect_spec. reflexivity. Qed.

(** The copy loop of [CallStackFromPkgErrors] stores every address at its
    index and never leaves the slice. *)
Lemma copy_trace_spec (st done todo : list uintptr) :
  length todo = length st ->
  copy_trace (len done) st (done ++ todo) = Ok (done ++ st).
Proof.
  revert done todo. induction st as [|v st IH]; intros done todo Hlen.
  - destruct todo; [reflexivity | discriminate].
  - destruct todo as [|z todo]; [discriminate|]. simpl.
    unfold store.
    assert (Hd : 0 <= len done) by (unfold len; lia).
    destruct (Z.ltb_spec (len done) 0); [lia|].
    destruct (Z.leb_spec (len (done ++ z :: todo)) (len done)) as [Hle|_].
    { unfold len in Hle. rewrite length_app in Hle. simpl in Hle. lia. }
    simpl.
    replace (Z.to_nat (len done)) with (length done) by (unfold len; lia).
    replace (<[length done:=v]> (done ++ z :: todo))
      with ((done ++ [v]) ++ todo).
    2:{ rewrite insert_app_r_alt by lia. rewrite Nat.sub_diag. simpl.
        now rewrite <- List.app_assoc. }
    replace (len done + 1) with (len (done ++ [v])).
    2:{ unfold len. rewrite length_app. simpl. lia. }
    rewrite IH by (simpl in Hlen; lia).
    now rewrite <- List.app_assoc.
Qed.

(** [CallStackFromPkgErrors] never panics.  It returns the frames of the
    addresses in their order, or a single zero-valued frame when no
    address has a frame. *)
Lemma CallStackFromPkgErrors_spec (st : list uintptr) :
  CallStackFromPkgErrors symtab st
  = Ok (mk_slice (map own (or_zero_frame (resolve_all symtab st)))).
Proof.
  unfold CallStackFromPkgErrors.
  pose proof (copy_trace_spec st [] (replicate (length st) 0%N)) as H.
  simpl in H. change (len []) with 0 in H.
  rewrite H by apply length_replicate. simpl.
  now rewrite collect_from_pcs.
Qed.

Lemma or_zero_frame_len (l : list frame) : 1 <= len (or_zero_frame l).
Proof. destruct l; unfold len; simpl; lia. Qed.

Lemma or_zero_frame_id (l : list frame) : l <> [] -> or_zero_frame l = l.
Proof. now destruct l. Qed.

(** *** Lists in which every program counter stands for one frame *)


Lemma frames_at_one (next : option uintptr) (pc : uintptr) :
  length (frames_at symtab next pc) = 1%nat ->
  exists info : pc_info,
    symtab pc = Some info /\ frames_at symtab next pc = [innermost info].
Proof.
  unfold frames_at. destruct (symtab pc) as [info|]; [|discriminate].
  intros H. exists info. split; [reflexivity|].
  destruct (inserted next (elides info) (enclosing info));
    [reflexivity | discriminate H].
Qed.




(** In such a list the frame at each index is the frame of the innermost
    call of the program counter at that index. *)
Lemma one_frame_each_resolve (pcs : list uintptr) :
  one_frame_each symtab pcs ->
  length (resolve_all symtab pcs) = length pcs /\
  forall (k : nat) (pc : uintptr),
    pcs !! k = Some pc ->
    exists info : pc_info,
      symtab pc = Some info /\
      resolve_all symtab pcs !! k = Some (frame_of (innermost info)).
Proof.
  unfold one_frame_each, resolve_all.
  induction pcs as [|a rest IH]; intros H.
  - split; [reflexivity|]. intros k pc Hk. discriminate Hk.
  - simpl in H. apply Forall_cons in H as [Ha Hrest].
    destruct (IH Hrest) as [IHlen IHnth].
    apply frames_at_one in Ha as [ia [Ea Hfa]].
    simpl resolve_each. simpl concat. rewrite Hfa. simpl.
    split; [now rewrite IHlen|].
    intros [|k] pc Hk; simpl in Hk.
    + injection Hk as <-. exists ia. auto.
    + simpl. auto.
Qed.

End LoopFacts.

(** ** Capturing the running stack *)

Section CaptureFacts.

Variable stack : list uintptr.
Variable symtab : uintptr -> option pc_info.

(** Within the range of [int] the addition does not wrap. *)
Lemma int_add_in_range (a b : Z) :
  min_int <= a + b <= max_int -> int_add a b = a + b.
Proof.
  unfold int_add, wrap_int, min_int, max_int, int_bits.
  change (2 ^ (64 - 1)) with 9223372036854775808.
  change (2 ^ 64) with 18446744073709551616.
  intros H. rewrite Z.mod_small by lia. lia.
Qed.

Lemma to_nat_len {A} (l : list A) : Z.to_nat (len l) = length l.
Proof. apply Nat2Z.id. Qed.

(** The runtime writes at most as many program counters as the buffer
    holds, at its front, and reports their number. *)
Lemma runtime_Callers_spec (skip : Z) (buf : list uintptr) :
  let w := take (length buf) (found stack skip) in
  runtime_Callers stack skip buf
  = (len w, w ++ drop (length w) buf) /\
  0 <= len w <= len buf /\
  len (w ++ drop (length w) buf) = len buf.
Proof.
  cbv zeta. split; [reflexivity|].
  unfold len. rewrite length_app, length_drop, length_take. lia.
Qed.

Lemma captured_spec (skip : Z) :
  captured stack skip = take 32 (found stack (int_add skip 2)) /\
  fst (runtime_Callers stack (int_add skip 2) (replicate 32 0%N))
  = len (captured stack skip).
Proof.
  unfold captured.
  destruct (runtime_Callers_spec (int_add skip 2) (replicate 32 0%N))
    as [-> _].
  rewrite length_replicate, to_nat_len, take_app_length.
  split; reflexivity.
Qed.

(** [Callers] never panics.  It returns nil when the runtime reports no
    program counter, and otherwise what the loop collects from those
    reported. *)
Lemma Callers_spec (skip : Z) :
  Callers stack symtab skip
  = Ok (match captured stack skip with
        | [] => nil_slice
        | pc :: pcs => mk_slice (map own (or_zero_frame
                                            (resolve_all symtab (pc :: pcs))))
        end).
Proof.
  destruct (runtime_Callers_spec (int_add skip 2) (replicate 32 0%N))
    as [E [Hn Hlen]].
  unfold Callers, captured. rewrite E.
  rewrite to_nat_len, take_app_length. clear E.
  match goal with
  | |- context [take ?n (found ?s ?k) ++ _] =>
      remember (take n (found s k)) as w eqn:Ew in *
  end.
  destruct w as [|pc pcs]; [reflexivity|].
  destruct (Z.eqb_spec (len (pc :: pcs)) 0) as [H0|_];
    [unfold len in H0; simpl in H0; lia|].
  rewrite slice_to_in_range by (rewrite Hlen; exact Hn).
  rewrite bind_Ok, to_nat_len, take_app_length.
  now rewrite collect_from_pcs.
Qed.

(** For a skip that does not overflow, the program counters captured are
    those of the stack from index [skip+2] outward, 32 at most. *)
Lemma captured_from_stack (skip : Z) :
  0 <= skip -> skip + 2 <= max_int ->
  captured stack skip = take 32 (drop (Z.to_nat skip + 2) stack).
Proof.
  intros H0 Hmax. destruct (captured_spec skip) as [-> _].
  rewrite int_add_in_range
    by (unfold min_int, max_int, int_bits in *; simpl in *; lia).
  unfold found. do 2 f_equal. lia.
Qed.

End CaptureFacts.

(** The frames of a list begin with the frame of the innermost call of its
    first program counter, when that one is known. *)
Lemma resolve_all_first (symtab : uintptr -> option pc_info)
  (pc : uintptr) (rest : list uintptr) (info : pc_info) :
  symtab pc = Some info ->
  exists outer : list frame,
    resolve_all symtab (pc :: rest) = frame_of (innermost info) :: outer.
Proof.
  intros H. unfold resolve_all. simpl resolve_each. unfold frames_at at 1.
  rewrite H. simpl. eauto.
Qed.

(** ** The capture functions *)

(** C1, as amended.  When the runtime reports no program counter,
    [Callers] returns the nil call stack, for every skip: a value of length
    zero, the absent one and not an empty slice, and never a panic. *)
Theorem Callers_no_frames_nil (stack : list uintptr)
  (symtab : uintptr -> option pc_info) (skip : Z) :
  fst (runtime_Callers stack (int_add skip 2) (replicate 32 0%N)) = 0 ->
  exists cs : CallStack,
    Callers stack symtab skip = Ok cs /\
    is_nil cs = true /\ len (elems cs) = 0.
Proof.
  intros Hn. destruct (captured_spec stack skip) as [_ Hc].
  rewrite Hn in Hc. rewrite Callers_spec.
  destruct (captured stack skip) as [|pc pcs];
    [|unfold len in Hc; simpl in Hc; lia].
  exists nil_slice. auto.
Qed.

(** The theorem at a skip beyond the depth of the stack. *)
Lemma Callers_no_frames_nil_witness :
  exists cs : CallStack,
    Callers example_stack example_symtab 7 = Ok cs /\
    is_nil cs = true /\ len (elems cs) = 0.
Proof.
  apply (Callers_no_frames_nil example_stack example_symtab 7).
  reflexivity.
Defined.

(** C1, as stated, fails: with no frame to capture the result is nil, not
    the empty call stack that is not nil. *)
Lemma Callers_no_frames_not_empty_slice :
  fst (runtime_Callers example_stack (int_add 7 2) (replicate 32 0%N)) = 0 /\
  Callers example_stack example_symtab 7 = Ok nil_slice /\
  ~ (exists cs : CallStack,
       Callers example_stack example_symtab 7 = Ok cs /\
       is_nil cs = false).
Proof.
  split; [reflexivity|]. split; [reflexivity|].
  intros [cs [H Hnil]]. vm_compute in H. injection H as <-. discriminate.
Qed.

(** C3.  One call of [Callers] asks the runtime for at most 32 program
    counters: the runtime reports a number between 0 and 32 and no more
    than that many are looked up.  Whatever the number, [Callers] returns
    a call stack and does not panic: nil for none, and otherwise the
    frames of the program counters reported.  When fewer than 32 entries
    of the stack lie beyond the skipped ones, all of them are captured,
    and with one frame per program counter the call stack has exactly as
    many frames as the runtime reported. *)
Theorem Callers_bounded (stack : list uintptr)
  (symtab : uintptr -> option pc_info) (skip : Z) :
  let n := fst (runtime_Callers stack (int_add skip 2)
                  (replicate 32 0%N)) in
  let pcs := captured stack skip in
  (0 <= n <= 32 /\ len pcs = n) /\
  (exists cs : CallStack,
     Callers stack symtab skip = Ok cs /\
     cs = match pcs with
          | [] => nil_slice
          | _ :: _ =>
              mk_slice (map own (or_zero_frame (resolve_all symtab pcs)))
          end /\
     (one_frame_each symtab pcs -> len (elems cs) = n)) /\
  (0 <= skip -> skip + 2 <= max_int ->
   len (drop (Z.to_nat skip + 2) stack) < 32 ->
   pcs = drop (Z.to_nat skip + 2) stack).
Proof.
  cbv zeta.
  destruct (captured_spec stack skip) as [Hc Hn].
  split; [|split].
  - rewrite Hn. split; [|reflexivity]. rewrite Hc. unfold len.
    rewrite length_take. lia.
  - eexists. split; [apply Callers_spec|]. split.
    + destruct (captured stack skip); reflexivity.
    + intros Hone. rewrite Hn.
      destruct (one_frame_each_resolve symtab _ Hone) as [Hlen _].
      destruct (captured stack skip) as [|pc pcs]; [reflexivity|].
      simpl elems. unfold len. rewrite length_map. f_equal.
      destruct (resolve_all symtab (pc :: pcs)); [discriminate Hlen|].
      exact Hlen.
  - intros H0 Hmax Hshort. rewrite captured_from_stack by assumption.
    apply take_ge. unfold len in Hshort. lia.
Qed.

(** The theorem at the example stack, where three entries lie beyond the
    two that are skipped. *)
Lemma Callers_bounded_witness :
  captured example_stack 0 = [3; 4; 5]%N /\
  exists cs : CallStack,
    Callers example_stack example_symtab 0 = Ok cs /\
    len (elems cs) = 3.
Proof.
  destruct (Callers_bounded example_stack example_symtab 0)
    as [_ [[cs [HC [_ Hlen]]] Hall]].
  split.
  - apply Hall; [lia | vm_compute; discriminate | reflexivity].
  - exists cs. split; [exact HC|]. apply Hlen.
    unfold one_frame_each. vm_compute. repeat constructor.
Defined.

(** C4, as amended.  For every skip from zero on for which [skip+2] is
    still an [int], [Callers] passes [skip+2] to the runtime and so omits
    the two innermost entries of the stack, those of [runtime.Callers] and
    of [Callers] itself, and [skip] further ones: the call stack returned
    begins with the frame of the call site [skip] levels above the caller
    of [Callers] and goes on with the frames of the entries above it, and
    it is nil when the stack is not that deep. *)
Theorem Callers_skips_machinery_in_range (stack : list uintptr)
  (symtab : uintptr -> option pc_info) (skip : Z) :
  0 <= skip -> skip + 2 <= max_int ->
  runtime_Callers stack (int_add skip 2) (replicate 32 0%N)
  = runtime_Callers stack (skip + 2) (replicate 32 0%N) /\
  captured stack skip = take 32 (drop (Z.to_nat skip + 2) stack) /\
  (forall (pc : uintptr) (info : pc_info),
     stack !! (Z.to_nat skip + 2)%nat = Some pc ->
     symtab pc = Some info ->
     exists outer : list Frame,
       Callers stack symtab skip
       = Ok (mk_slice (own (frame_of (innermost info)) :: outer)) /\
       own (frame_of (innermost info)) :: outer
       = map own (resolve_all symtab
                    (take 32 (drop (Z.to_nat skip + 2) stack)))) /\
  (len stack <= skip + 2 -> Callers stack symtab skip = Ok nil_slice).
Proof.
  intros H0 Hmax.
  split; [|split; [|split]].
  - rewrite int_add_in_range; [reflexivity|].
    unfold min_int, max_int, int_bits in *. simpl in *. lia.
  - now apply captured_from_stack.
  - intros pc info Hpc Hsym.
    rewrite Callers_spec, captured_from_stack by assumption.
    rewrite (drop_S _ pc) by exact Hpc.
    change (take 32 (pc :: ?l)) with (pc :: take 31 l).
    destruct (resolve_all_first symtab pc
                (take 31 (drop (S (Z.to_nat skip + 2)) stack)) info Hsym)
      as [outer ->].
    exists (map own outer). split; reflexivity.
  - intros Hlen. rewrite Callers_spec, captured_from_stack by assumption.
    rewrite drop_ge by (unfold len in Hlen; lia). reflexivity.
Qed.

(** The theorem at the example stack: with skip 1 the constructor that
    called [Callers] is omitted too and the call stack begins at the
    application. *)
Lemma Callers_skips_machinery_in_range_witness :
  exists outer : list Frame,
    Callers example_stack example_symtab 1
    = Ok (mk_slice (own (mkframe "/src/app/acl.go" 21 "main.GetACL")
                    :: outer)).
Proof.
  destruct (Callers_skips_machinery_in_range example_stack example_symtab 1)
    as [_ [_ [Hsite _]]].
  - lia.
  - vm_compute. discriminate.
  - destruct (Hsite 4%N (mk_pc_info
                  (mk_runtime_Frame "/src/app/acl.go" 21 "main.GetACL")
                  true [])) as [outer [H _]]; [reflexivity | reflexivity|].
    exists outer. exact H.
Defined.

(** C4, as stated, fails at the largest skip: [skip+2] wraps around to a
    negative number, the runtime skips nothing, and the call stack begins
    with the frames of [runtime.Callers] and of [Callers] themselves. *)
Lemma Callers_max_skip_keeps_machinery :
  0 <= max_int /\
  int_add max_int 2 < 0 /\
  exists outer : list Frame,
    Callers example_stack example_symtab max_int
    = Ok (mk_slice
            (own (mkframe "/go/src/runtime/extern.go" 229 "runtime.Callers")
             :: own (mkframe "/src/failure/callstack.go" 45
                       "github.com/morikuni/failure.Callers")
             :: outer)).
Proof.
  split; [vm_compute; discriminate|]. split; [reflexivity|].
  eexists. vm_compute. reflexivity.
Qed.

(** C5 fails on the empty trace.  No address is given, so there is no
    frame to resolve, and yet the call stack returned holds a frame: the
    zero value of the struct, which is the frame of no address. *)
Theorem CallStackFromPkgErrors_empty_trace
  (symtab : uintptr -> option pc_info) :
  resolve_all symtab [] = [] /\
  CallStackFromPkgErrors symtab [] = Ok (mk_slice [own zero_frame]).
Proof.
  split; [reflexivity|]. apply CallStackFromPkgErrors_spec.
Qed.

(** C10.  [CallStackFromPkgErrors] never returns an empty call stack: for
    every trace the result is a slice with a first frame, and for the empty
    trace it is the slice of length one holding the zero-valued frame.
    [Callers] differs: when the runtime reports no program counter it
    returns nil. *)
Theorem CallStackFromPkgErrors_never_empty (stack : list uintptr)
  (symtab : uintptr -> option pc_info) :
  (forall st : list uintptr,
     exists (f : frame) (rest : list Frame),
       CallStackFromPkgErrors symtab st = Ok (mk_slice (own f :: rest))) /\
  (CallStackFromPkgErrors symtab [] = Ok (mk_slice [own zero_frame]) /\
   len [own zero_frame] = 1) /\
  (forall skip : Z,
     fst (runtime_Callers stack (int_add skip 2) (replicate 32 0%N)) = 0 ->
     Callers stack symtab skip = Ok nil_slice).
Proof.
  split; [|split].
  - intros st. rewrite CallStackFromPkgErrors_spec.
    destruct (resolve_all symtab st) as [|f rest]; simpl; eauto.
  - split; [apply CallStackFromPkgErrors_spec | reflexivity].
  - intros skip Hn. destruct (captured_spec stack skip) as [_ Hc].
    rewrite Hn in Hc. rewrite Callers_spec.
    destruct (captured stack skip) as [|pc pcs];
      [reflexivity | unfold len in Hc; simpl in Hc; lia].
Qed.

(** The theorem at the example runtime: the trace of one unknown address
    gives one frame, and [Callers] with nothing left to capture gives
    nil. *)
Lemma CallStackFromPkgErrors_never_empty_witness :
  CallStackFromPkgErrors example_symtab [9%N]
  = Ok (mk_slice [own zero_frame]) /\
  Callers example_stack example_symtab 3 = Ok nil_slice.
Proof.
  destruct (CallStackFromPkgErrors_never_empty example_stack example_symtab)
    as [Hne [_ Hnil]].
  split.
  - destruct (Hne [9%N]) as [f [rest H]]. rewrite H.
    vm_compute in H. injection H as <- <-. reflexivity.
  - apply Hnil. reflexivity.
Defined.



(** * Further properties of the formatting methods *)

Section FormatMore.

Variable go_syntax : CallStack -> string.

Lemma foldl_Write {A} (text : A -> string) (l : list A) (s : State) :
  exists t : string,
    foldl (fun s x => Write s (text x)) s l
    = mk_State (Flag s) (written s +:+ t).
Proof.
  revert s. induction l as [|x l IH]; intros s; simpl.
  - exists "". rewrite append_Empty_r. now destruct s.
  - destruct (IH (Write s (text x))) as [t ->]. simpl.
    exists (text x +:+ t). now rewrite append_assoc.
Qed.

Lemma State_eta (s' : State) (fl : rune -> bool) (t : string) :
  Flag s' = fl -> written s' = t -> s' = mk_State fl t.
Proof. destruct s'. simpl. now intros -> ->. Qed.

(** The loop over the names only appends, also when it ends in a panic. *)
Lemma write_funcs_appends (init : list Frame) (s : State) :
  exists t : string,
    match write_funcs init s with
    | Returned s1 | Panicked s1 _ =>
        s1 = mk_State (Flag s) (written s +:+ t)
    end.
Proof.
  revert s. induction init as [|pc init IH]; intros s; simpl.
  - exists "". rewrite append_Empty_r. now destruct s.
  - destruct (Frame_Func pc) as [fn|m].
    + destruct (IH (Write s (fn +:+ ": "))) as [t Ht].
      exists ((fn +:+ ": ") +:+ t).
      destruct (write_funcs init (Write s (fn +:+ ": "))); rewrite Ht; simpl;
        now rewrite append_assoc.
    + exists "". rewrite append_Empty_r. now destruct s.
Qed.

Lemma Format_default_appends (cs : CallStack) (s : State) :
  exists t : string,
    match Format_default cs s with
    | Returned s1 | Panicked s1 _ =>
        s1 = mk_State (Flag s) (written s +:+ t)
    end.
Proof.
  assert (Hs : s = mk_State (Flag s) (written s +:+ ""))
    by (rewrite append_Empty_r; now destruct s).
  unfold Format_default.
  destruct (len (elems cs) =? 0); [now exists ""|].
  unfold Format_joined.
  destruct (slice_to (elems cs) (len (elems cs) - 1)) as [init|m];
    [|now exists ""].
  destruct (write_funcs_appends init s) as [t Ht].
  destruct (write_funcs init s) as [s1|s1 m]; [|now exists t].
  destruct (index (elems cs) (len (elems cs) - 1)) as [final|m];
    [|now exists t].
  destruct (Frame_Func final) as [fn|m]; [|now exists t].
  exists (t +:+ fn). rewrite Ht. unfold Write. simpl.
  now rewrite append_assoc.
Qed.

(** X1.  With the verb [v] and no flag, when [Func] returns a name for
    every element of the call stack, [Format] returns and has written
    exactly those names, in their order, joined by a colon and a space,
    after what the state held, with the flags unchanged: no separator
    comes before the first name nor after the last.  [Func] returns a name
    for every frame of this package, so this is what a call stack made by
    the capture functions prints. *)
Theorem Format_v_joins_names (cs : CallStack) (s : State) :
  Flag s (rune_of "+") = false -> Flag s (rune_of "#") = false ->
  (forall names : list string,
     Forall2 (fun pc n => Frame_Func pc = Ok n) (elems cs) names ->
     CallStack_Format go_syntax cs s (rune_of "v")
     = Returned (mk_State (Flag s)
                   (written s +:+ strings_Join names ": "))) /\
  (forall l : list frame,
     elems cs = map own l ->
     exists names : list string,
       Forall2 (fun f n => Func f = Ok n) l names /\
       CallStack_Format go_syntax cs s (rune_of "v")
       = Returned (mk_State (Flag s)
                     (written s +:+ strings_Join names ": "))).
Proof.
  intros Hplus Hsharp.
  assert (Hjoin : forall names : list string,
             Forall2 (fun pc n => Frame_Func pc = Ok n) (elems cs) names ->
             CallStack_Format go_syntax cs s (rune_of "v")
             = Returned (mk_State (Flag s)
                           (written s +:+ strings_Join names ": "))).
  { intros names Hn. unfold CallStack_Format.
    change (rune_of "v" =? rune_of "v") with true. cbv iota.
    rewrite Hplus, Hsharp.
    destruct (Format_default_cases cs s)
      as [(names' & s' & Hn' & -> & Hfl & Hw)
         | (pc & m & s1 & Hin & Hp & _)].
    - rewrite (Forall2_names_unique _ _ _ Hn Hn').
      f_equal. now apply State_eta.
    - exfalso. exact (Forall2_no_panic _ _ _ _ Hn Hin Hp). }
  split; [exact Hjoin|].
  intros l E. destruct (Func_names l) as [names Hn].
  exists names. split.
  - clear -Hn. revert names Hn.
    induction l as [|f l IH]; intros names Hn; inversion Hn; subst;
      constructor; auto.
  - apply Hjoin. now rewrite E.
Qed.

(** X2.  With the verb [v] and the plus flag, [Format] writes one line per
    frame: the name that [Func] returns in brackets, the path, a colon,
    the line number and a line feed.  Formatting a concatenation of two
    call stacks is formatting the first and then the second. *)
Theorem Format_plus_lines (s : State) :
  Flag s (rune_of "+") = true ->
  (forall f : frame,
     exists fn : string,
       Func f = Ok fn /\
       CallStack_Format go_syntax (mk_slice [own f]) s (rune_of "v")
       = Returned (Write s ((("[" +:+ fn +:+ "] ")
                             +:+ (file f +:+ ":" +:+ format_int (line f)))
                            +:+ String "010" ""))) /\
  (forall l1 l2 : list Frame,
     CallStack_Format go_syntax (mk_slice (l1 ++ l2)) s (rune_of "v")
     = match CallStack_Format go_syntax (mk_slice l1) s (rune_of "v") with
       | Returned s1 =>
           CallStack_Format go_syntax (mk_slice l2) s1 (rune_of "v")
       | Panicked s1 m => Panicked s1 m
       end).
Proof.
  intros Hplus. split.
  - intros f. destruct (Func_succeeds f) as [fn Hfn]. exists fn.
    split; [exact Hfn|]. unfold CallStack_Format.
    change (rune_of "v" =? rune_of "v") with true. cbv iota.
    rewrite Hplus. simpl foldl. unfold Frame_plus_v, frame_Format.
    change (rune_of "v" =? rune_of "v") with true. cbv iota.
    change (Flag (printer true) (rune_of "+")) with true. cbv iota.
    rewrite Hfn. reflexivity.
  - intros l1 l2. unfold CallStack_Format.
    change (rune_of "v" =? rune_of "v") with true. cbv iota.
    rewrite Hplus. simpl elems. rewrite foldl_app.
    destruct (foldl_Write
                (fun pc => Frame_plus_v pc +:+ String "010" "") l1 s)
      as [t Ht].
    rewrite Ht. simpl Flag. now rewrite Hplus.
Qed.

(** X3.  [Format] of a frame never panics.  The verbs [s] and [v] write
    the path, a colon and the line number; the verb [s] does so whatever
    the flags, and the verb [v] with the plus flag writes the name that
    [Func] returns in brackets before it.  Any other verb writes
    nothing. *)
Theorem frame_Format_text (f : frame) (s : State) :
  exists fn : string,
    Func f = Ok fn /\
    frame_Format f s (rune_of "s")
    = Ok (Write s (file f +:+ ":" +:+ format_int (line f))) /\
    frame_Format f s (rune_of "v")
    = Ok (Write (if Flag s (rune_of "+")
                 then Write s ("[" +:+ fn +:+ "] ") else s)
                (file f +:+ ":" +:+ format_int (line f))) /\
    (forall verb : rune,
       verb <> rune_of "v" -> verb <> rune_of "s" ->
       frame_Format f s verb = Ok s).
Proof.
  destruct (Func_succeeds f) as [fn Hfn]. exists fn.
  split; [exact Hfn|]. split; [reflexivity|]. split.
  - unfold frame_Format.
    change (rune_of "v" =? rune_of "v") with true. cbv iota.
    rewrite Hfn. destruct (Flag s (rune_of "+")); reflexivity.
  - intros verb Hv Hs. unfold frame_Format.
    destruct (Z.eqb_spec verb (rune_of "v")); [contradiction|].
    destruct (Z.eqb_spec verb (rune_of "s")); [contradiction|].
    reflexivity.
Qed.

(** X5.  [Format] only appends.  For every call stack, state and verb,
    whether it returns or panics, the state it leaves has the same flags
    and holds what was written before followed by some text; nothing
    written is changed or lost. *)
Theorem Format_appends (cs : CallStack) (s : State) (verb : rune) :
  exists t : string,
    match CallStack_Format go_syntax cs s verb with
    | Returned s1 | Panicked s1 _ =>
        s1 = mk_State (Flag s) (written s +:+ t)
    end.
Proof.
  unfold CallStack_Format.
  destruct (verb =? rune_of "v").
  - destruct (Flag s (rune_of "+")).
    + apply foldl_Write.
    + destruct (Flag s (rune_of "#")).
      * now exists (go_syntax cs).
      * apply Format_default_appends.
  - destruct (verb =? rune_of "s").
    + now eexists.
    + exists "". rewrite append_Empty_r. now destruct s.
Qed.

(** X6.  A nil call stack and an empty one print alike, and so do any two
    call stacks with the same frames, for every verb and state, the Go
    syntax of [%#v] apart. *)
Theorem Format_nil_as_empty (cs cs' : CallStack) (s : State) (verb : rune) :
  elems cs = elems cs' ->
  (verb =? rune_of "v") && negb (Flag s (rune_of "+"))
    && Flag s (rune_of "#") = false ->
  CallStack_Format go_syntax cs s verb = CallStack_Format go_syntax cs' s verb.
Proof.
  intros E Hsharp. unfold CallStack_Format, Format_default, Format_joined.
  rewrite E.
  destruct (verb =? rune_of "v"); [|reflexivity].
  destruct (Flag s (rune_of "+")); [reflexivity|].
  destruct (Flag s (rune_of "#")); [discriminate Hsharp | reflexivity].
Qed.

End FormatMore.

(** The theorem X1 at the two frames of the application in the example,
    printed with a plain [%v]. *)
Lemma Format_v_joins_names_witness :
  CallStack_Format (fun _ => "")
    (mk_slice (map own (resolve_all example_symtab [4; 5]%N)))
    (printer false) (rune_of "v")
  = Returned (mk_State (Flag (printer false)) "GetACL: main").
Proof.
  destruct (Format_v_joins_names (fun _ => "")
              (mk_slice (map own (resolve_all example_symtab [4; 5]%N)))
              (printer false)) as [Hjoin _]; [reflexivity | reflexivity|].
  apply (Hjoin ["GetACL"; "main"]). repeat constructor.
Defined.

(** The theorem X2 at a frame of the example, printed with [%+v]. *)
Lemma Format_plus_lines_witness :
  exists fn : string,
    Func (mkframe "/src/app/acl.go" 21 "main.GetACL") = Ok fn /\
    CallStack_Format (fun _ => "")
      (mk_slice [own (mkframe "/src/app/acl.go" 21 "main.GetACL")])
      (printer true) (rune_of "v")
    = Returned (Write (printer true)
                  ((("[" +:+ fn +:+ "] ")
                    +:+ ("/src/app/acl.go" +:+ ":" +:+ "21"))
                   +:+ String "010" "")).
Proof.
  destruct (Format_plus_lines (fun _ => "") (printer true)) as [Hone _];
    [reflexivity|].
  exact (Hone (mkframe "/src/app/acl.go" 21 "main.GetACL")).
Defined.

(** The theorem X3 at a frame of the example and the verb [d]. *)
Lemma frame_Format_text_witness :
  frame_Format (mkframe "/src/app/acl.go" 21 "main.GetACL") (printer true)
    (rune_of "d") = Ok (printer true).
Proof.
  destruct (frame_Format_text (mkframe "/src/app/acl.go" 21 "main.GetACL")
              (printer true)) as [fn [_ [_ [_ Hother]]]].
  apply Hother; vm_compute; discriminate.
Defined.

(** The theorem X6 at the nil and the empty call stack, printed with
    [%+v]. *)
Lemma Format_nil_as_empty_witness :
  CallStack_Format (fun _ => "") nil_slice (printer true) (rune_of "v")
  = CallStack_Format (fun _ => "") (mk_slice []) (printer true) (rune_of "v").
Proof.
  apply (Format_nil_as_empty (fun _ => "") nil_slice (mk_slice [])
           (printer true) (rune_of "v")); reflexivity.
Defined.

(** * Further properties of the capture functions *)

Section CaptureMore.

Variable stack : list uintptr.
Variable symtab : uintptr -> option pc_info.

(** X7.  [Callers] returns nil or a call stack with at least one frame,
    never an empty slice that is not nil: nil exactly when the runtime
    reports no program counter. *)
Theorem Callers_nil_or_frames (skip : Z) :
  let n := fst (runtime_Callers stack (int_add skip 2)
                  (replicate 32 0%N)) in
  exists cs : CallStack,
    Callers stack symtab skip = Ok cs /\
    ((is_nil cs = true /\ n = 0) \/
     (is_nil cs = false /\ 0 < n /\ 1 <= len (elems cs))).
Proof.
  cbv zeta. destruct (captured_spec stack skip) as [_ ->].
  rewrite Callers_spec.
  destruct (captured stack skip) as [|pc pcs]; eexists;
    (split; [reflexivity|]).
  - left. auto.
  - right. split; [reflexivity|]. split.
    + unfold len. simpl. lia.
    + simpl elems. unfold len. rewrite length_map.
      apply or_zero_frame_len.
Qed.

(** X8.  For a skip that does not overflow, [Callers] returns nil exactly
    when the skip reaches past the stack, that is when the stack has no
    entry at index [skip+2]. *)
Theorem Callers_skip_past_stack (skip : Z) :
  0 <= skip -> skip + 2 <= max_int ->
  Callers stack symtab skip = Ok nil_slice
  <-> len stack <= skip + 2.
Proof.
  intros H0 Hmax. rewrite Callers_spec, captured_from_stack by assumption.
  destruct (take 32 (drop (Z.to_nat skip + 2) stack)) as [|pc pcs] eqn:E.
  - split; [intros _|reflexivity].
    assert (Hl : length (take 32 (drop (Z.to_nat skip + 2) stack)) = 0%nat)
      by now rewrite E.
    rewrite length_take, length_drop in Hl. unfold len. lia.
  - split; [discriminate|]. intros Hlen.
    rewrite drop_ge in E by (unfold len in Hlen; lia). discriminate E.
Qed.

(** X9.  For a skip from zero on with [skip+3] still an [int], and a stack
    with an entry at index [skip+2]: one more level of skip drops the
    innermost program counter captured.  When moreover the stack beyond
    the skipped entries fits the buffer and frames remain above that
    program counter, the call stack for [skip+1] is the call stack for
    [skip] without the frames that its first program counter gives. *)
Theorem Callers_skip_succ (skip : Z) (pc : uintptr) :
  0 <= skip -> skip + 3 <= max_int ->
  stack !! (Z.to_nat skip + 2)%nat = Some pc ->
  drop 1 (captured stack skip) = take 31 (captured stack (skip + 1)) /\
  (len (drop (Z.to_nat skip + 2) stack) <= 32 ->
   resolve_all symtab (drop (Z.to_nat skip + 3) stack) <> [] ->
   exists cs cs' : CallStack,
     Callers stack symtab skip = Ok cs /\
     Callers stack symtab (skip + 1) = Ok cs' /\
     elems cs'
     = drop (length (frames_at symtab
                       (head (drop (Z.to_nat skip + 3) stack)) pc))
         (elems cs)).
Proof.
  intros H0 Hmax Hpc.
  assert (Hc : captured stack skip
               = pc :: take 31 (drop (Z.to_nat skip + 3) stack)).
  { rewrite captured_from_stack by lia.
    rewrite (drop_S _ pc) by exact Hpc.
    replace (S (Z.to_nat skip + 2)) with (Z.to_nat skip + 3)%nat by lia.
    reflexivity. }
  assert (Hc' : captured stack (skip + 1)
                = take 32 (drop (Z.to_nat skip + 3) stack)).
  { rewrite captured_from_stack by lia. do 2 f_equal. lia. }
  split.
  - rewrite Hc, Hc'. simpl drop. rewrite take_take. reflexivity.
  - intros Hfit Hres. rewrite !Callers_spec, Hc, Hc'.
    assert (Hshort : (length (drop (Z.to_nat skip + 3) stack) <= 31)%nat).
    { unfold len in Hfit. rewrite length_drop in *.
      apply lookup_lt_Some in Hpc. lia. }
    rewrite !take_ge by lia.
    destruct (drop (Z.to_nat skip + 3) stack) as [|pc' rest] eqn:E;
      [now destruct Hres|].
    do 2 eexists. split; [reflexivity|]. split; [reflexivity|].
    simpl elems. rewrite (or_zero_frame_id _ Hres).
    assert (Hcons : resolve_all symtab (pc :: pc' :: rest)
                    = map frame_of (frames_at symtab (Some pc') pc)
                      ++ resolve_all symtab (pc' :: rest)).
    { unfold resolve_all. simpl resolve_each. simpl concat.
      now rewrite List.map_app. }
    rewrite Hcons.
    rewrite or_zero_frame_id
      by (intros Habs; apply app_eq_nil in Habs as [_ Habs]; now apply Hres).
    rewrite List.map_app. simpl head.
    rewrite drop_app_length'; [reflexivity|]. now rewrite !length_map.
Qed.

(** X10.  Converting the program counters that [Callers] captured gives
    the call stack that [Callers] returns, unless none was captured: then
    [Callers] returns nil and the conversion a zero-valued frame. *)
Theorem CallStackFromPkgErrors_of_captured (skip : Z) :
  CallStackFromPkgErrors symtab (captured stack skip)
  = Callers stack symtab skip
  <-> captured stack skip <> [].
Proof.
  rewrite CallStackFromPkgErrors_spec, Callers_spec.
  destruct (captured stack skip) as [|pc pcs].
  - split; [discriminate | intros H; now destruct H].
  - split; [discriminate | reflexivity].
Qed.

(** X14.  The copy loop stores every address of the trace at its index.
    It stays within the slice exactly when the slice is at least as long
    as the trace, as the one [CallStackFromPkgErrors] makes is; on a
    shorter slice the store panics. *)
Theorem copy_trace_bounds (st done todo : list uintptr) :
  copy_trace (len done) st (done ++ todo)
  = if (length st <=? length todo)%nat
    then Ok (done ++ st ++ drop (length st) todo)
    else Panic "index out of range".
Proof.
  revert done todo. induction st as [|v st IH]; intros done todo.
  - reflexivity.
  - simpl copy_trace. unfold store.
    assert (Hd : 0 <= len done) by (unfold len; lia).
    destruct (Z.ltb_spec (len done) 0); [lia|]. simpl orb.
    destruct todo as [|z todo].
    + rewrite app_nil_r.
      destruct (Z.leb_spec (len done) (len done)); [reflexivity | lia].
    + destruct (Z.leb_spec (len (done ++ z :: todo)) (len done)) as [Hle|_].
      { unfold len in Hle. rewrite length_app in Hle. simpl in Hle. lia. }
      rewrite bind_Ok.
      replace (Z.to_nat (len done)) with (length done) by (unfold len; lia).
      replace (<[length done:=v]> (done ++ z :: todo))
        with ((done ++ [v]) ++ todo).
      2:{ rewrite insert_app_r_alt by lia. rewrite Nat.sub_diag. simpl.
          now rewrite <- List.app_assoc. }
      replace (len done + 1) with (len (done ++ [v])).
      2:{ unfold len. rewrite length_app. simpl. lia. }
      rewrite IH. simpl length. simpl drop.
      change (S (length st) <=? S (length todo))%nat
        with (length st <=? length todo)%nat.
      destruct (length st <=? length todo)%nat; [|reflexivity].
      now rewrite <- List.app_assoc.
Qed.

End CaptureMore.

(** X15.  [File] never returns the empty string: for the empty path it
    returns a dot, for a path of slashes only a slash, and otherwise a
    name with at least one character. *)
Theorem File_never_empty (f : frame) :
  exists b : string,
    File f = Ok b /\ b <> "" /\ (file f = "" -> b = ".").
Proof.
  exists (filepath_Base (file f)). split; [reflexivity|].
  unfold filepath_Base, path_Base.
  destruct (String.eqb_spec (file f) "") as [E|E].
  - split; [discriminate | reflexivity].
  - split; [|contradiction]. cbv zeta.
    match goal with
    | |- (if String.eqb ?p2 "" then _ else _) <> _ =>
        destruct (String.eqb_spec p2 ""); [discriminate | assumption]
    end.
Qed.

(** The theorem X8 at the example stack of depth five: a skip of three
    reaches past it. *)
Lemma Callers_skip_past_stack_witness :
  Callers example_stack example_symtab 3 = Ok nil_slice.
Proof.
  apply (Callers_skip_past_stack example_stack example_symtab 3).
  - lia.
  - vm_compute. discriminate.
  - vm_compute. discriminate.
Defined.

(** The theorem X9 at the example stack: with one more level of skip the
    frame of the constructor is gone. *)
Lemma Callers_skip_succ_witness :
  exists cs cs' : CallStack,
    Callers example_stack example_symtab 0 = Ok cs /\
    Callers example_stack example_symtab (0 + 1) = Ok cs' /\
    elems cs' = drop 1 (elems cs).
Proof.
  destruct (Callers_skip_succ example_stack example_symtab 0 3%N) as [_ H].
  - lia.
  - vm_compute. discriminate.
  - reflexivity.
  - apply H; vm_compute; discriminate.
Defined.

(** The theorem X10 at the example stack, where three program counters
    are captured. *)
Lemma CallStackFromPkgErrors_of_captured_witness :
  CallStackFromPkgErrors example_symtab (captured example_stack 0)
  = Callers example_stack example_symtab 0.
Proof.
  apply (CallStackFromPkgErrors_of_captured example_stack example_symtab 0).
  vm_compute. discriminate.
Defined.

(** The theorem X15 at the zero-valued frame, whose path is empty. *)
Lemma File_never_empty_witness :
  exists b : string, File zero_frame = Ok b /\ b = ".".
Proof.
  destruct (File_never_empty zero_frame) as [b [H [_ Hdot]]].
  exists b. split; [exact H|]. apply Hdot. reflexivity.
Defined.
